(** * GoodBooks catalogue service: query layer, rating upsert and CSV loader

    A shallow embedding of [app/main.py] and [ingest/ingest.py].  The
    document store is modelled by lists of typed documents (one list per
    collection, in the store's natural order) together with the cursor and
    aggregation primitives the endpoints call.  Python [float]s are read as
    the exact rationals they denote ([Q]); binary64 rounding is outside this
    model. *)

From Stdlib Require Import ZArith QArith Qcanon Qround Qabs Ascii String List.
From Stdlib Require Import Permutation Sorted Lia.
From stdpp Require Import base decidable option numbers list list_numbers gmap strings.

Local Open Scope Z_scope.

(** ** Outcome of an endpoint *)

(** An endpoint either answers with a body or fails with an HTTP status
    (401, 404, 422; 500 for an exception nobody handles). *)
Inductive outcome (A : Type) : Type :=
| Ok (body : A)
| HttpError (status : Z).
Arguments Ok {A} body.
Arguments HttpError {A} status.

(** ** Data model (the documents of each collection) *)

Record Book := {
  book_id : Z;
  goodreads_book_id : Z;
  title : string;
  authors : string;
  original_publication_year : option Q;
  average_rating : Q;
  ratings_count : Z;
  image_url : string
}.

Record Rating := {
  rating_user_id : Z;
  rating_book_id : Z;
  rating : Z
}.

Record Tag := {
  tag_id : Z;
  tag_name : string
}.

Record BookTag := {
  bt_goodreads_book_id : Z;
  bt_tag_id : Z;
  bt_count : Z
}.

(** [db]: the handle of [main.py], one list per collection. *)
Record Db := {
  books : list Book;
  ratings : list Rating;
  tags : list Tag;
  book_tags : list BookTag
}.

(** ** Rating summary ([get_rating_summary]) *)

(** One output document of the [$group] stage. *)
Record RatingGroup := {
  grp_id : Z;
  grp_average : Q;
  grp_count : nat;
  grp_distribution : list Z
}.

Record RatingSummary := {
  rs_book_id : Z;
  rs_average : Q;
  rs_count : nat;
  rs_histogram : gmap Z nat
}.

(** [{"$match": {"book_id": book_id}}] on the ratings collection. *)
Definition match_book_id (bid : Z) (rs : list Rating) : list Rating :=
  filter (λ r, rating_book_id r = bid) rs.

Definition sumZ (l : list Z) : Z := foldr Z.add 0 l.

(** [$avg]: the sum of the values over their number. *)
Definition avg (l : list Z) : Q := sumZ l # Pos.of_nat (length l).

(** [$group] by ["$book_id"]: one document per distinct key, with the
    accumulators [$avg], [$sum: 1] and [$push] over the rows of the key. *)
Definition group_by_book_id (rows : list Rating) : list RatingGroup :=
  (λ k, let g := match_book_id k rows in
        {| grp_id := k;
           grp_average := avg (rating <$> g);
           grp_count := length g;
           grp_distribution := rating <$> g |})
  <$> remove_dups (rating_book_id <$> rows).

(** Nearest integer, ties to the even one. *)
Definition round_half_even (x : Q) : Z :=
  let d := Zpos (Qden x) in
  let f := Qnum x / d in
  match Z.compare (2 * (Qnum x mod d)) d with
  | Lt => f
  | Gt => f + 1
  | Eq => if Z.even f then f else f + 1
  end.

(** Python's [round(x, ndigits)] on the exact value of [x], for
    [ndigits >= 0]. *)
Definition py_round (x : Q) (ndigits : nat) : Q :=
  let p := Pos.of_nat (10 ^ ndigits) in
  round_half_even (x * (Zpos p # 1)) # p.

(** [dist.count(i)] *)
Definition list_count (i : Z) (dist : list Z) : nat :=
  length (filter (λ x, x = i) dist).

(** [{i: dist.count(i) for i in range(1, 6)}] *)
Definition histogram (dist : list Z) : gmap Z nat :=
  list_to_map ((λ i, (i, list_count i dist)) <$> seqZ 1 5).

Definition get_rating_summary (db : Db) (bid : Z) : RatingSummary :=
  let data := group_by_book_id (match_book_id bid (ratings db)) in
  match data with
  | [] => {| rs_book_id := bid; rs_average := 0; rs_count := 0;
             rs_histogram := ∅ |}
  | res :: _ =>
      {| rs_book_id := bid;
         rs_average := py_round (grp_average res) 2;
         rs_count := grp_count res;
         rs_histogram := histogram (grp_distribution res) |}
  end.

(** ** Regular expressions of the store

    [{"$regex": q, "$options": "i"}] hands [q] to the store's regular
    expression engine.  The fragment modelled here: an ordinary character
    stands for itself, [.] for any character but a newline, and a backslash
    before a metacharacter makes it ordinary.  A pattern using any other
    construct is outside the fragment ([None]). *)

Inductive rx_atom : Type :=
| RxChar (c : ascii)
| RxAny.

(** The backslash, by its code. *)
Definition backslash : ascii := ascii_of_nat 92.

Definition rx_metachars : list ascii :=
  backslash :: list_ascii_of_string "^$.|?*+()[]{}".

Definition is_meta (c : ascii) : bool := existsb (Ascii.eqb c) rx_metachars.

Fixpoint rx_parse (p : list ascii) : option (list rx_atom) :=
  match p with
  | [] => Some []
  | c :: rest =>
      if Ascii.eqb c backslash then
        match rest with
        | e :: rest' =>
            if is_meta e then cons (RxChar e) <$> rx_parse rest' else None
        | [] => None
        end
      else if Ascii.eqb c "." then cons RxAny <$> rx_parse rest
      else if is_meta c then None
      else cons (RxChar c) <$> rx_parse rest
  end.

(** Case folding of option [i], on the ASCII letters. *)
Definition to_lower (c : ascii) : ascii :=
  let n := nat_of_ascii c in
  if ((65 <=? n) && (n <=? 90))%nat then ascii_of_nat (n + 32) else c.

Definition rx_atom_match (a : rx_atom) (c : ascii) : bool :=
  match a with
  | RxChar x => Ascii.eqb (to_lower x) (to_lower c)
  | RxAny => negb (Ascii.eqb c "010")
  end.

(** The pattern matches a prefix of the subject. *)
Fixpoint rx_match_here (r : list rx_atom) (s : list ascii) : bool :=
  match r, s with
  | [], _ => true
  | a :: r', c :: s' => rx_atom_match a c && rx_match_here r' s'
  | _ :: _, [] => false
  end.

(** Unanchored search: the pattern matches at some offset of the subject. *)
Fixpoint rx_search (r : list rx_atom) (s : list ascii) : bool :=
  rx_match_here r s ||
  match s with
  | [] => false
  | _ :: s' => rx_search r s'
  end.

Definition regex_i (r : list rx_atom) (subject : string) : bool :=
  rx_search r (list_ascii_of_string subject).

(** ** Filter builder ([list_books], the part before the sort map) *)

Record year_range := {
  yr_gte : option Z;
  yr_lte : option Z
}.

(** The dictionary [query_filter]: a key that was not set is [None]. *)
Record query_filter := {
  qf_or_regex : option string;
  qf_average_rating_gte : option Q;
  qf_original_publication_year : option year_range
}.

(** Python truthiness of the optional parameters. *)
Definition truthy_str (q : option string) : bool :=
  match q with
  | Some s => negb (String.eqb s EmptyString)
  | None => false
  end.

Definition truthy_float (x : option Q) : bool :=
  match x with
  | Some v => negb (Qeq_bool v 0)
  | None => false
  end.

Definition truthy_int (x : option Z) : bool :=
  match x with
  | Some v => negb (v =? 0)
  | None => false
  end.

Definition build_query_filter (q : option string) (min_avg : option Q)
    (year_from year_to : option Z) : query_filter :=
  {| qf_or_regex := if truthy_str q then q else None;
     qf_average_rating_gte := if truthy_float min_avg then min_avg else None;
     qf_original_publication_year :=
       if truthy_int year_from || truthy_int year_to then
         Some {| yr_gte := if truthy_int year_from then year_from else None;
                 yr_lte := if truthy_int year_to then year_to else None |}
       else None |}.

(** How the store evaluates the year condition: a book without a numeric
    year satisfies no comparison, and an empty condition document matches
    no number. *)
Definition year_matches (yr : year_range) (y : option Q) : bool :=
  match y with
  | None => false
  | Some v =>
      match yr_gte yr, yr_lte yr with
      | None, None => false
      | lo, hi =>
          from_option (λ a, Qle_bool (inject_Z a) v) true lo &&
          from_option (λ b, Qle_bool v (inject_Z b)) true hi
      end
  end.

(** The store compiles the filter once per query; the conditions present
    are combined by conjunction. *)
Definition compile_filter (f : query_filter) : option (Book → bool) :=
  rx ← match qf_or_regex f with
       | None => Some None
       | Some p => Some <$> rx_parse (list_ascii_of_string p)
       end;
  Some (λ b,
    from_option (λ r, regex_i r (title b) || regex_i r (authors b)) true rx &&
    from_option (λ m, Qle_bool m (average_rating b)) true
      (qf_average_rating_gte f) &&
    from_option (λ yr, year_matches yr (original_publication_year b)) true
      (qf_original_publication_year f)).

(** ** Cursors of the store *)

(** [find(filter)] and [count_documents(filter)] *)
Definition find {A} (p : A → bool) (coll : list A) : list A :=
  List.filter p coll.

Definition count_documents {A} (p : A → bool) (coll : list A) : nat :=
  length (List.filter p coll).

(** [cursor.skip(n)]: the driver raises [ValueError] on a negative [n],
    which nobody handles (status 500). *)
Definition cursor_skip {A} (n : Z) (c : list A) : outcome (list A) :=
  if n <? 0 then HttpError 500 else Ok (drop (Z.to_nat n) c).

(** [cursor.limit(n)]: a limit of 0 is no limit; a negative limit is its
    absolute value. *)
Definition cursor_limit {A} (n : Z) (c : list A) : list A :=
  if n =? 0 then c else take (Z.to_nat (Z.abs n)) c.

(** [cursor.sort(field, direction)].  The order among documents whose keys
    are equal is the store's choice; this model keeps their natural order. *)
Fixpoint insert_sorted {A} (leb : A → A → bool) (x : A) (l : list A) : list A :=
  match l with
  | [] => [x]
  | y :: l' => if leb x y then x :: l else y :: insert_sorted leb x l'
  end.

Definition cursor_sort {A} (leb : A → A → bool) (c : list A) : list A :=
  foldr (insert_sorted leb) [] c.

(** ** Book listing ([list_books]) *)

Inductive book_field : Type :=
| F_average_rating
| F_ratings_count
| F_original_publication_year
| F_title.

Definition sort_field_map (sort : string) : option book_field :=
  if String.eqb sort "avg" then Some F_average_rating
  else if String.eqb sort "ratings_count" then Some F_ratings_count
  else if String.eqb sort "year" then Some F_original_publication_year
  else if String.eqb sort "title" then Some F_title
  else None.

(** The store's order on the values of a field: a missing value sorts
    before every number, strings by their bytes. *)
Definition field_leb (f : book_field) (a b : Book) : bool :=
  match f with
  | F_average_rating => Qle_bool (average_rating a) (average_rating b)
  | F_ratings_count => ratings_count a <=? ratings_count b
  | F_original_publication_year =>
      match original_publication_year a, original_publication_year b with
      | None, _ => true
      | Some _, None => false
      | Some x, Some y => Qle_bool x y
      end
  | F_title => String.leb (title a) (title b)
  end.

Definition directed_leb (f : book_field) (mongo_order : Z) (a b : Book) : bool :=
  if mongo_order =? 1 then field_leb f a b else field_leb f b a.

Record PaginatedResponse (A : Type) := {
  items : list A;
  page : Z;
  page_size : Z;
  total : nat
}.
Arguments items {A} _.
Arguments page {A} _.
Arguments page_size {A} _.
Arguments total {A} _.

(** The declarations [Query(.., pattern=..)], [Query(1, ge=1)] and
    [Query(20, ge=1, le=100)], checked before the body runs. *)
Definition valid_list_books_params (sort order : string) (pg pg_size : Z) : bool :=
  bool_decide (is_Some (sort_field_map sort)) &&
  (String.eqb order "asc" || String.eqb order "desc") &&
  (1 <=? pg) && (1 <=? pg_size) && (pg_size <=? 100).

(** [None]: the pattern [q] is outside the modelled fragment of regular
    expressions.  The documents of this model carry no [_id], so the loop
    popping it has nothing to do. *)
Definition list_books (db : Db) (q : option string) (min_avg : option Q)
    (year_from year_to : option Z) (sort order : string) (pg pg_size : Z)
    : option (outcome (PaginatedResponse Book)) :=
  if negb (valid_list_books_params sort order pg pg_size) then
    Some (HttpError 422)
  else
    let query_filter := build_query_filter q min_avg year_from year_to in
    let mongo_order := if String.eqb order "desc" then -1 else 1 in
    p ← compile_filter query_filter;
    field ← sort_field_map sort;
    let total := count_documents p (books db) in
    Some (
      match cursor_skip ((pg - 1) * pg_size)
              (cursor_sort (directed_leb field mongo_order) (find p (books db)))
      with
      | HttpError s => HttpError s
      | Ok cursor =>
          Ok {| items := cursor_limit pg_size cursor;
                page := pg; page_size := pg_size; total := total |}
      end).

(** ** Tag listing ([get_all_tags]) *)


(** ** Tags of a book ([get_book_tags]) *)

(** [db.books.find_one({"book_id": book_id})]: the first match, if any. *)
Definition find_one_book (bid : Z) (bs : list Book) : option Book :=
  head (find (λ b, bool_decide (book_id b = bid)) bs).

(** A [book_tags] document after [$lookup]: the array [tag_info] holds
    every tag whose [tag_id] equals the row's. *)
Record BookTagJoined := {
  j_row : BookTag;
  tag_info : list Tag
}.

(** An output row, after [$project]. *)
Record TagRow := {
  row_tag_id : Z;
  row_count : Z;
  row_tag_name : string
}.

Definition stage_match (gr_id : Z) (c : list BookTag) : list BookTag :=
  find (λ bt, bool_decide (bt_goodreads_book_id bt = gr_id)) c.

Definition stage_lookup (from : list Tag) (c : list BookTag) : list BookTagJoined :=
  (λ bt, {| j_row := bt;
            tag_info := find (λ t, bool_decide (tag_id t = bt_tag_id bt)) from |})
  <$> c.

(** [$unwind]: one document per element of the array, none for an empty
    array. *)
Definition stage_unwind (c : list BookTagJoined) : list (BookTag * Tag) :=
  j ← c; (λ t, (j_row j, t)) <$> tag_info j.

Definition stage_project (c : list (BookTag * Tag)) : list TagRow :=
  (λ d, {| row_tag_id := bt_tag_id d.1;
           row_count := bt_count d.1;
           row_tag_name := tag_name d.2 |}) <$> c.

(** [{"$sort": {"count": -1}}] *)
Definition count_desc (a b : TagRow) : bool := row_count b <=? row_count a.

Definition stage_sort (c : list TagRow) : list TagRow :=
  cursor_sort count_desc c.

Record BookTags := {
  bts_book_id : Z;
  bts_tags : list TagRow
}.

Definition get_book_tags (db : Db) (bid : Z) : outcome BookTags :=
  match find_one_book bid (books db) with
  | None => HttpError 404
  | Some book =>
      let gr_id := goodreads_book_id book in
      let tags :=
        stage_sort (stage_project (stage_unwind
          (stage_lookup (tags db) (stage_match gr_id (book_tags db))))) in
      Ok {| bts_book_id := bid; bts_tags := tags |}
  end.

(** ** Rating upsert ([verify_api_key], [upsert_rating]) *)

Record RatingIn := {
  in_user_id : Z;
  in_book_id : Z;
  in_rating : Z
}.

Record RatingOut := {
  upserted : bool;
  matched : nat
}.

(** The driver's [UpdateResult]; the identifier of an inserted document is
    its position in the collection. *)
Record UpdateResult := {
  matched_count : nat;
  upserted_id : option nat
}.

Definition same_key (uid bid : Z) (r : Rating) : Prop :=
  rating_user_id r = uid ∧ rating_book_id r = bid.

Global Instance same_key_dec uid bid r : Decision (same_key uid bid r).
Proof. unfold same_key. apply _. Defined.

(** [update_one({"user_id": u, "book_id": b}, {"$set": {"rating": v}},
    upsert=True)]: the first document matching the filter gets the new
    value; without a match a document made of the filter and the update is
    inserted. *)
Definition update_one_rating (uid bid v : Z) (coll : list Rating)
    : list Rating * UpdateResult :=
  match list_find (same_key uid bid) coll with
  | Some (i, r) =>
      (<[i := {| rating_user_id := rating_user_id r;
                 rating_book_id := rating_book_id r;
                 rating := v |}]> coll,
       {| matched_count := 1; upserted_id := None |})
  | None =>
      (coll ++ [{| rating_user_id := uid; rating_book_id := bid; rating := v |}],
       {| matched_count := 0; upserted_id := Some (length coll) |})
  end.

Definition set_ratings (db : Db) (rs : list Rating) : Db :=
  {| books := books db; ratings := rs; tags := tags db;
     book_tags := book_tags db |}.

Definition upsert_rating (r : RatingIn) (db : Db) : RatingOut * Db :=
  let '(rs, result) :=
    update_one_rating (in_user_id r) (in_book_id r) (in_rating r) (ratings db) in
  ({| upserted := bool_decide (is_Some (upserted_id result));
      matched := matched_count result |},
   set_ratings db rs).

(** [request.headers.get(name)]: the value of the first header of that
    name. *)
Definition headers_get (name : string) (headers : list (string * string))
    : option string :=
  snd <$> List.find (λ h, String.eqb (fst h) name) headers.

Definition verify_api_key (API_KEY : string) (headers : list (string * string))
    : outcome unit :=
  if decide (headers_get "x-api-key" headers = Some API_KEY) then Ok ()
  else HttpError 401.

(** [rating: int = Field(ge=1, le=5)] *)
Definition valid_rating_in (r : RatingIn) : bool :=
  (1 <=? in_rating r) && (in_rating r <=? 5).

(** [POST /ratings]: the dependency [verify_api_key] runs first, then the
    body is validated, then the handler runs. *)
Definition post_ratings (API_KEY : string) (headers : list (string * string))
    (r : RatingIn) (db : Db) : outcome RatingOut * Db :=
  match verify_api_key API_KEY headers with
  | HttpError s => (HttpError s, db)
  | Ok _ =>
      if valid_rating_in r then
        let '(out, db') := upsert_rating r db in (Ok out, db')
      else (HttpError 422, db)
  end.

(** ** CSV loader ([ingest_collection]) *)

(** A cell of the data frame, and a field value of a stored document.
    Numbers are compared by value, whatever their Python type. *)
Inductive scalar : Type :=
| SNum (x : Qc)
| SStr (s : string)
| SNaN.

Global Instance scalar_eq_dec : EqDecision scalar.
Proof. solve_decision. Defined.

(** A row as [row.to_dict()] gives it, and a document of a collection
    (without its [_id]). *)
Abbreviation doc := (gmap string scalar).

(** [df.fillna("")] *)
Definition fill_cell (v : scalar) : scalar :=
  match v with
  | SNaN => SStr EmptyString
  | _ => v
  end.

Definition fillna (df : list doc) : list doc :=
  (λ row : doc, fill_cell <$> row) <$> df.

(** [{k: data[k] for k in key_fields}]; [None] stands for the [KeyError]
    of a missing column. *)
Definition make_filter_doc (key_fields : list string) (data : doc) : option doc :=
  list_to_map <$> mapM (λ k, pair k <$> data !! k) key_fields.

(** An equality filter matches the documents holding each of its fields
    with the same value. *)
Definition doc_matches (filter_doc d : doc) : Prop :=
  map_Forall (λ k v, d !! k = Some v) filter_doc.

Global Instance doc_matches_dec f d : Decision (doc_matches f d).
Proof. unfold doc_matches. apply _. Defined.

(** [UpdateOne(filter_doc, {"$set": data}, upsert=True)]: the first match
    gets the fields of [data]; without a match, the document made of the
    filter's fields and then those of [data] is inserted. *)
Definition apply_update_one (coll : list doc) (op : doc * doc) : list doc :=
  let '(filter_doc, data) := op in
  match list_find (doc_matches filter_doc) coll with
  | Some (i, d) => <[i := data ∪ d]> coll
  | None => coll ++ [data ∪ filter_doc]
  end.

(** [bulk_write(operations)], in order. *)
Definition bulk_write (operations : list (doc * doc)) (coll : list doc) : list doc :=
  foldl apply_update_one coll operations.

(** [ingest_collection]: [df] is what [pd.read_csv(url)] returned and
    [coll] the collection [db[name]]; the result is the collection
    afterwards.  An exception while the operations are built leaves the
    collection as it was. *)
Definition ingest_collection (coll : list doc) (df : list doc)
    (key_fields : list string) : list doc :=
  let df := fillna df in
  match mapM (λ data, (λ f, (f, data)) <$> make_filter_doc key_fields data) df with
  | None => coll
  | Some [] => coll
  | Some operations => bulk_write operations coll
  end.

(** The key of a document under a unique index on [key_fields]: the values
    of those fields, a missing one counting as null. *)
Definition key_of (key_fields : list string) (d : doc) : list (option scalar) :=
  (λ k, d !! k) <$> key_fields.


(** A row holds every key column. *)
Definition has_keys (key_fields : list string) (data : doc) : Prop :=
  ∀ k, k ∈ key_fields → is_Some (data !! k).

(** ** Notions the statements below use *)






(** ** A small catalogue, for the examples *)

Definition mk_book (bid gr : Z) (t a : string) (y : option Q) (r : Q) : Book :=
  {| book_id := bid; goodreads_book_id := gr; title := t; authors := a;
     original_publication_year := y; average_rating := r;
     ratings_count := 10; image_url := "u" |}.

Definition sample_db : Db :=
  {| books :=
       [mk_book 7 70 "The Hobbit" "J.R.R. Tolkien" (Some (1937 # 1)) (43 # 10);
        mk_book 8 80 "Emma" "Jane Austen" (Some (1815 # 1)) (4 # 1);
        mk_book 9 90 "x" "y" None (-1 # 1)];
     ratings :=
       [{| rating_user_id := 1; rating_book_id := 7; rating := 5 |};
        {| rating_user_id := 2; rating_book_id := 7; rating := 5 |};
        {| rating_user_id := 1; rating_book_id := 8; rating := 2 |};
        {| rating_user_id := 3; rating_book_id := 7; rating := 5 |};
        {| rating_user_id := 4; rating_book_id := 7; rating := 4 |};
        {| rating_user_id := 5; rating_book_id := 7; rating := 3 |}];
     tags :=
       [{| tag_id := 1; tag_name := "fantasy" |};
        {| tag_id := 2; tag_name := "classics" |}];
     book_tags :=
       [{| bt_goodreads_book_id := 70; bt_tag_id := 2; bt_count := 3 |};
        {| bt_goodreads_book_id := 80; bt_tag_id := 2; bt_count := 9 |};
        {| bt_goodreads_book_id := 70; bt_tag_id := 1; bt_count := 8 |};
        {| bt_goodreads_book_id := 70; bt_tag_id := 5; bt_count := 99 |}] |}.

(** The inner join written as a comprehension, in collection order. *)
Definition inner_join_rows (db : Db) (gr_id : Z) : list TagRow :=
  bt ← book_tags db;
  if bool_decide (bt_goodreads_book_id bt = gr_id) then
    t ← tags db;
    if bool_decide (tag_id t = bt_tag_id bt) then
      [{| row_tag_id := bt_tag_id bt; row_count := bt_count bt;
          row_tag_name := tag_name t |}]
    else []
  else [].

(** A tags collection and a source frame for it. *)
Definition sample_tags_coll : list doc :=
  [{[ "tag_id"%string := SNum (Q2Qc 1); "tag_name"%string := SStr "old" ]}].

Definition sample_tags_frame : list doc :=
  [{[ "tag_id"%string := SNum (Q2Qc 1); "tag_name"%string := SNaN ]};
   {[ "tag_id"%string := SNum (Q2Qc 2); "tag_name"%string := SStr "classics" ]}].

(** ** Single book ([get_book_details]) *)


(** ** Books of an author ([get_author_books]) *)



(** ** Metrics ([metrics]) *)

Record Metrics := {
  books_count : nat;
  metrics_ratings_count : nat;
  users_count : nat
}.

(** [collection.distinct(field)]: each value once. *)
Definition distinct (l : list Z) : list Z := remove_dups l.

Definition metrics (db : Db) : Metrics :=
  {| books_count := count_documents (λ _, true) (books db);
     metrics_ratings_count := count_documents (λ _, true) (ratings db);
     users_count := length (distinct (rating_user_id <$> ratings db)) |}.

(** ** Further notions the statements use *)

(** The unique index of the ratings collection, on [(user_id, book_id)]. *)
Definition rating_key (r : Rating) : Z * Z := (rating_user_id r, rating_book_id r).

(** A document holds no NaN. *)
Definition nan_free (d : doc) : Prop := ∀ c, d !! c ≠ Some SNaN.

(** The year condition as the parameters state it: a bound that is absent
    or 0 does not constrain. *)
Definition year_in_bounds (year_from year_to : option Z) (y : Q) : Prop :=
  (∀ a, year_from = Some a → a ≠ 0 → (inject_Z a <= y)%Q) ∧
  (∀ b, year_to = Some b → b ≠ 0 → (y <= inject_Z b)%Q).


(** * Properties *)

(** ** Rating summary *)

Lemma match_book_id_idem bid rs :
  match_book_id bid (match_book_id bid rs) = match_book_id bid rs.
Proof.
  unfold match_book_id. induction rs as [|r rs IH]; [done|].
  rewrite filter_cons. case_decide as Hr; [|done].
  rewrite filter_cons. rewrite decide_True by done. by rewrite IH.
Qed.

Lemma match_book_id_key bid rs r :
  r ∈ match_book_id bid rs → rating_book_id r = bid.
Proof. unfold match_book_id. rewrite list_elem_of_filter. tauto. Qed.

Lemma remove_dups_const (c : Z) (l : list Z) :
  l ≠ [] → Forall (λ x, x = c) l → remove_dups l = [c].
Proof.
  induction l as [|x l IH]; [done|]. intros _ Hall.
  apply Forall_cons in Hall as [-> Hall].
  destruct l as [|y l]; [done|].
  change (remove_dups (c :: y :: l)) with
    (if decide_rel elem_of c (y :: l)
     then remove_dups (y :: l) else c :: remove_dups (y :: l)).
  rewrite IH by done. apply Forall_cons in Hall as [-> _].
  destruct (decide_rel _ _ _); [done|set_solver].
Qed.

(** After [$match] on one [book_id], [$group] yields a single document
    over all the matched rows. *)
Lemma group_of_matched bid rs :
  let rows := match_book_id bid rs in
  rows ≠ [] →
  group_by_book_id rows =
    [{| grp_id := bid;
        grp_average := avg (rating <$> rows);
        grp_count := length rows;
        grp_distribution := rating <$> rows |}].
Proof.
  intros rows Hne. unfold group_by_book_id.
  rewrite (remove_dups_const bid).
  - simpl. subst rows. by rewrite match_book_id_idem.
  - by destruct rows.
  - apply Forall_fmap, Forall_forall. intros r Hr. simpl.
    by apply match_book_id_key in Hr.
Qed.

Lemma get_rating_summary_rows db bid :
  let rows := match_book_id bid (ratings db) in
  get_rating_summary db bid =
    if decide (rows = []) then
      {| rs_book_id := bid; rs_average := 0; rs_count := 0; rs_histogram := ∅ |}
    else
      {| rs_book_id := bid;
         rs_average := py_round (avg (rating <$> rows)) 2;
         rs_count := length rows;
         rs_histogram := histogram (rating <$> rows) |}.
Proof.
  intros rows. unfold get_rating_summary. fold rows.
  case_decide as Hrows.
  - by rewrite Hrows.
  - pose proof (group_of_matched bid (ratings db) Hrows) as Hgrp.
    simpl in Hgrp. fold rows in Hgrp. by rewrite Hgrp.
Qed.






Lemma sum_counts_in_range (dist : list Z) :
  Forall (λ x, 1 ≤ x ≤ 5) dist →
  (list_count 1 dist + list_count 2 dist + list_count 3 dist +
   list_count 4 dist + list_count 5 dist)%nat = length dist.
Proof.
  unfold list_count. induction 1 as [|x l Hx _ IH]; [done|].
  rewrite !filter_cons. simpl length. rewrite <- IH.
  assert (x = 1 ∨ x = 2 ∨ x = 3 ∨ x = 4 ∨ x = 5) as Hcases by lia.
  destruct Hcases as [->|[->|[->|[->| ->]]]];
    repeat case_decide; try lia; simpl length; lia.
Qed.



(** C9: for a book with at least one rating, all stored ratings being in
    1..5, the histogram has exactly the keys 1, 2, 3, 4, 5 and its values
    add up to the returned count. *)
Theorem histogram_keys_and_total (db : Db) (bid : Z) :
  let r := get_rating_summary db bid in
  filter (λ x, rating_book_id x = bid) (ratings db) ≠ [] →
  Forall (λ x, 1 ≤ rating x ≤ 5) (ratings db) →
  dom (rs_histogram r) = ({[1; 2; 3; 4; 5]} : gset Z) ∧
  sum_list (snd <$> map_to_list (rs_histogram r)) = rs_count r.
Proof.
  intros r Hne Hall. subst r.
  pose proof (get_rating_summary_rows db bid) as Heq. simpl in Heq.
  unfold match_book_id in Heq. rewrite Heq, decide_False by done. clear Heq.
  simpl. set (rows := filter _ _) in *. set (dist := rating <$> rows).
  split.
  - unfold histogram. rewrite dom_list_to_map_L. set_solver.
  - unfold histogram. rewrite map_to_list_to_map.
    + change (seqZ 1 5) with [1; 2; 3; 4; 5]. simpl.
      rewrite <- (length_fmap rating rows). fold dist.
      rewrite <- (sum_counts_in_range dist); [lia|].
      apply Forall_fmap, Forall_forall. intros x Hx. simpl.
      apply list_elem_of_filter in Hx as [_ Hx].
      by apply (proj1 (Forall_forall _ _) Hall).
    + change (seqZ 1 5) with [1; 2; 3; 4; 5]. simpl.
      apply (bool_decide_unpack _). by vm_compute.
Qed.

Lemma histogram_keys_and_total_witness :
  let r := get_rating_summary sample_db 7 in
  dom (rs_histogram r) = ({[1; 2; 3; 4; 5]} : gset Z) ∧
  sum_list (snd <$> map_to_list (rs_histogram r)) = rs_count r.
Proof.
  apply (histogram_keys_and_total sample_db 7).
  - vm_compute. discriminate.
  - vm_compute. repeat (constructor; [split; discriminate|]). constructor.
Defined.

(** ** Cursors: sorting and paging *)

Lemma insert_sorted_perm {A} (leb : A → A → bool) x l :
  insert_sorted leb x l ≡ₚ x :: l.
Proof.
  induction l as [|y l IH]; [done|]. simpl.
  destruct (leb x y); [done|]. rewrite IH. apply Permutation_swap.
Qed.

Lemma cursor_sort_perm {A} (leb : A → A → bool) l : cursor_sort leb l ≡ₚ l.
Proof.
  unfold cursor_sort. induction l as [|x l IH]; [done|]. simpl.
  by rewrite insert_sorted_perm, IH.
Qed.

Lemma cursor_sort_length {A} (leb : A → A → bool) l :
  length (cursor_sort leb l) = length l.
Proof. by rewrite cursor_sort_perm. Qed.

Section sorted.
Context {A : Type} (leb : A → A → bool).
Hypothesis leb_total : ∀ a b, leb a b = true ∨ leb b a = true.



End sorted.




(** ** Book listing *)




(** ** Tag listing *)


(** ** Filter builder *)

(** C5 (as the code behaves): a [min_avg] of 0 is present but falsy, so
    the filter gets no [average_rating] key and the listing returns a book
    whose average rating is below 0. *)
Theorem min_avg_zero_imposes_no_constraint :
  qf_average_rating_gte (build_query_filter None (Some 0%Q) None None) = None ∧
  ∃ body b,
    list_books sample_db None (Some 0%Q) None None "avg" "desc" 1 20
      = Some (Ok body) ∧
    b ∈ items body ∧ (average_rating b < 0)%Q.
Proof.
  split; [reflexivity|]. eexists. eexists (mk_book 9 90 "x" "y" None (-1 # 1)).
  split; [reflexivity|]. split; [|reflexivity].
  vm_compute. do 2 right. left.
Qed.

(** A present, non-zero [min_avg] does constrain the average rating. *)
Lemma min_avg_nonzero_constrains (m : Q) (b : Book) :
  ¬ (m == 0)%Q →
  ∃ p, compile_filter (build_query_filter None (Some m) None None) = Some p ∧
       (p b = true ↔ (m <= average_rating b)%Q).
Proof.
  intros Hm. unfold build_query_filter. simpl.
  destruct (Qeq_bool m 0) eqn:Hz; [by apply Qeq_bool_iff in Hz|].
  simpl. eexists. split; [reflexivity|]. simpl.
  rewrite andb_true_r. apply Qle_bool_iff.
Qed.

(** ** Text search *)








(** ** Tags of a book *)



Lemma list_filter_fmap_bind {A B} (p : A → bool) (f : A → B) (l : list A) :
  f <$> List.filter p l = (x ← l; if p x then [f x] else []).
Proof.
  induction l as [|x l IH]; [done|]. simpl.
  destruct (p x); simpl; [f_equal|]; apply IH.
Qed.

Lemma filter_bind {A B} (p : A → bool) (g : A → list B) (l : list A) :
  List.filter p l ≫= g = (x ← l; if p x then g x else []).
Proof.
  induction l as [|x l IH]; [done|]. rewrite bind_cons. cbn [List.filter].
  destruct (p x); [rewrite bind_cons; by f_equal|done].
Qed.

Lemma fmap_bind_bind {A B C} (f : B → C) (g : A → list B) (l : list A) :
  f <$> (l ≫= g) = (x ← l; f <$> g x).
Proof.
  induction l as [|x l IH]; [done|]. rewrite !bind_cons, fmap_app. by f_equal.
Qed.

(** The pipeline before [$sort] computes the inner join. *)
Lemma pipeline_inner_join db gr_id :
  stage_project (stage_unwind
    (stage_lookup (tags db) (stage_match gr_id (book_tags db))))
  = inner_join_rows db gr_id.
Proof.
  unfold stage_project, stage_unwind, stage_lookup, stage_match,
    inner_join_rows, find.
  rewrite list_fmap_bind, fmap_bind_bind, filter_bind.
  apply list_bind_ext; [|done]. intros bt.
  destruct (bool_decide (bt_goodreads_book_id bt = gr_id)); [|done].
  cbn [compose j_row tag_info].
  by rewrite <- list_fmap_compose, list_filter_fmap_bind.
Qed.






(** ** Rating upsert *)


Section update_one.
Context (uid bid v : Z).

Let fresh : Rating :=
  {| rating_user_id := uid; rating_book_id := bid; rating := v |}.


End update_one.





(** ** CSV loader *)

Section ingest.
Context (key_fields : list string).

Let key := key_of key_fields.

Let has_keys := has_keys key_fields.

(** The filter document of a row holding every key column. *)
Lemma make_filter_doc_Some (data : doc) :
  has_keys data →
  ∃ f, make_filter_doc key_fields data = Some f ∧ f ⊆ data ∧
       ∀ k, k ∈ key_fields → f !! k = data !! k.
Proof.
  unfold has_keys, make_filter_doc.
  induction key_fields as [|k0 ks IH]; intros Hk.
  - exists ∅. split; [done|]. split; [apply map_empty_subseteq|].
    intros k Hin. by apply elem_of_nil in Hin.
  - destruct IH as (f & Hf & Hsub & Hlook).
    { intros k Hin. apply Hk. by right. }
    destruct (Hk k0) as [v Hv]; [by left|].
    destruct (mapM _ ks) as [l|] eqn:Hl; [|done].
    injection Hf as <-.
    exists (<[k0 := v]> (list_to_map l)). split; [|split].
    + cbn [mapM]. rewrite Hv, Hl. done.
    + by apply insert_subseteq_l.
    + intros k Hin. destruct (decide (k = k0)) as [->|Hne].
      * by rewrite lookup_insert_eq.
      * rewrite lookup_insert_ne by done. apply Hlook.
        apply elem_of_cons in Hin as [?|?]; done.
Qed.

Lemma key_eq_iff (d1 d2 : doc) :
  key d1 = key d2 ↔ ∀ k, k ∈ key_fields → d1 !! k = d2 !! k.
Proof.
  subst key. unfold key_of. induction key_fields as [|k0 ks IH].
  - split; [|done]. intros _ k Hin. by apply elem_of_nil in Hin.
  - rewrite !fmap_cons. split.
    + intros Heq k Hin. injection Heq as H0 Hrest.
      apply elem_of_cons in Hin as [->|Hin]; [done|]. by apply IH.
    + intros Hall. f_equal; [apply Hall; by left|].
      apply IH. intros k Hin. apply Hall. by right.
Qed.

(** A document matches the filter of a row exactly when both have the
    same key. *)
Lemma doc_matches_key (data f d : doc) :
  has_keys data → f ⊆ data →
  (∀ k, k ∈ key_fields → f !! k = data !! k) →
  (∀ k, is_Some (f !! k) → k ∈ key_fields) →
  doc_matches f d ↔ key d = key data.
Proof.
  intros Hk Hsub Hlook Hdom. rewrite key_eq_iff. unfold doc_matches.
  rewrite map_Forall_lookup. split.
  - intros Hall k Hin. destruct (Hk k Hin) as [v Hv].
    rewrite Hv. apply Hall. by rewrite Hlook.
  - intros Hall k v Hf. rewrite Hall by eauto.
    by apply (lookup_weaken f).
Qed.

Lemma make_filter_doc_dom (data f : doc) k :
  make_filter_doc key_fields data = Some f → is_Some (f !! k) → k ∈ key_fields.
Proof.
  unfold make_filter_doc. revert f.
  induction key_fields as [|k0 ks IH]; intros f Hf Hk.
  - injection Hf as <-. rewrite lookup_empty in Hk. by destruct Hk.
  - cbn [mapM] in Hf. destruct (data !! k0) as [v|]; [|done].
    destruct (mapM _ ks) as [l|] eqn:Hl; [|done].
    injection Hf as <-. cbn [list_to_map foldr] in Hk.
    destruct (decide (k = k0)) as [->|Hne]; [by left|].
    rewrite lookup_insert_ne in Hk by done. right. by apply (IH (list_to_map l)).
Qed.
(** One operation of the bulk write, for a row holding its key columns. *)
Let step (coll : list doc) (data : doc) : list doc :=
  apply_update_one coll (default ∅ (make_filter_doc key_fields data), data).

Lemma step_cases (coll : list doc) (data : doc) :
  has_keys data →
  match list_find (λ d, key d = key data) coll with
  | Some (i, d) => step coll data = <[i := data ∪ d]> coll
  | None => step coll data = coll ++ [data]
  end.
Proof.
  intros Hk. subst step. cbv beta.
  destruct (make_filter_doc_Some data Hk) as (f & Hf & Hsub & Hlook).
  rewrite Hf. cbn [default apply_update_one].
  assert (data ∪ f = data) as Hunion.
  { apply map_eq. intros k. rewrite lookup_union.
    destruct (data !! k) eqn:Hd, (f !! k) eqn:Hfk; try done.
    apply (lookup_weaken f data) in Hfk; [congruence|done]. }
  rewrite (list_find_ext (doc_matches f) (λ d, key d = key data)).
  - destruct (list_find _ coll) as [[i d]|]; [done|].
    unfold id. by rewrite Hunion.
  - intros d. apply doc_matches_key; try done.
    intros k. by apply (make_filter_doc_dom data).
Qed.

Lemma key_union (data d : doc) :
  has_keys data → key (data ∪ d) = key data.
Proof.
  intros Hk. apply key_eq_iff. intros k Hin.
  destruct (Hk k Hin) as [v Hv]. rewrite Hv.
  by apply lookup_union_Some_l.
Qed.





Lemma has_keys_fill (row : doc) :
  has_keys row → has_keys (fill_cell <$> row).
Proof.
  intros Hk k Hin. rewrite lookup_fmap. apply fmap_is_Some. by apply Hk.
Qed.

Lemma ingest_collection_fold (coll df : list doc) :
  Forall has_keys df →
  ingest_collection coll df key_fields = foldl step coll (fillna df).
Proof.
  intros Hk. unfold ingest_collection.
  assert (mapM (λ data, (λ f, (f, data)) <$> make_filter_doc key_fields data)
            (fillna df)
          = Some ((λ data, (default ∅ (make_filter_doc key_fields data), data))
                  <$> fillna df)) as ->.
  { unfold fillna. induction Hk as [|row df Hrow _ IH]; [done|].
    rewrite !fmap_cons. cbn [mapM]. rewrite IH.
    destruct (make_filter_doc_Some _ (has_keys_fill row Hrow)) as (f & -> & _).
    done. }
  unfold bulk_write.
  set (g := λ data : doc, (default ∅ (make_filter_doc key_fields data), data)).
  transitivity (foldl apply_update_one coll (g <$> fillna df)).
  - by destruct (g <$> fillna df).
  - apply (foldl_fmap apply_update_one coll (fillna df) g).
Qed.

End ingest.



(** * Further properties *)

(** ** Single book *)

Lemma find_one_book_Some bid bs b :
  find_one_book bid bs = Some b → b ∈ bs ∧ book_id b = bid.
Proof.
  unfold find_one_book, find. induction bs as [|x bs IH]; simpl; [done|].
  case_bool_decide as Hx; simpl.
  - intros [= <-]. split; [by left|done].
  - intros Hb. destruct (IH Hb). split; [by right|done].
Qed.



(** ** Books of an author *)












(** ** Metrics *)

Lemma count_documents_all {A} (l : list A) :
  count_documents (λ _, true) l = length l.
Proof.
  unfold count_documents. induction l as [|x l IH]; simpl; congruence.
Qed.

Lemma length_distinct (l : list Z) :
  length (distinct l) = size (list_to_set l : gset Z).
Proof.
  unfold distinct. rewrite <- (size_list_to_set (C := gset Z) (remove_dups l))
    by apply NoDup_remove_dups.
  f_equal. apply set_eq. intros x.
  by rewrite !elem_of_list_to_set, elem_of_remove_dups.
Qed.

(** X4: the metrics report the sizes of the books and ratings collections
    and the number of different user ids among the ratings; that number
    never exceeds the number of ratings and is 0 exactly when there is no
    rating. *)
Theorem metrics_correct (db : Db) :
  books_count (metrics db) = length (books db) ∧
  metrics_ratings_count (metrics db) = length (ratings db) ∧
  users_count (metrics db)
    = size (list_to_set (rating_user_id <$> ratings db) : gset Z) ∧
  (users_count (metrics db) ≤ metrics_ratings_count (metrics db))%nat ∧
  (users_count (metrics db) = 0%nat ↔ ratings db = []).
Proof.
  unfold metrics. cbn [books_count metrics_ratings_count users_count].
  rewrite !count_documents_all.
  split; [done|]. split; [done|]. split; [apply length_distinct|]. split.
  - rewrite <- (length_fmap rating_user_id (ratings db)).
    apply sublist_length. unfold distinct.
    induction (rating_user_id <$> ratings db) as [|x l IH]; [done|].
    cbn [remove_dups]. destruct (decide_rel _ _ _);
      [by apply sublist_cons|by apply sublist_skip].
  - rewrite length_distinct. split.
    + intros Hsize. apply size_empty_inv in Hsize.
      destruct (ratings db) as [|x l]; [done|]. exfalso.
      rewrite fmap_cons, list_to_set_cons in Hsize. set_solver.
    + by intros ->.
Qed.

(** ** Rating upsert, further *)

Lemma update_one_rating_shape (uid bid v : Z) (coll : list Rating) :
  let fresh := {| rating_user_id := uid; rating_book_id := bid; rating := v |} in
  (Forall (λ x, ¬ same_key uid bid x) coll ∧
   update_one_rating uid bid v coll =
     (coll ++ [fresh],
      {| matched_count := 0; upserted_id := Some (length coll) |})) ∨
  (∃ i x, coll !! i = Some x ∧ same_key uid bid x ∧
     update_one_rating uid bid v coll =
       (<[i := fresh]> coll, {| matched_count := 1; upserted_id := None |})).
Proof.
  intros fresh. unfold update_one_rating.
  destruct (list_find (same_key uid bid) coll) as [[i x]|] eqn:Hfind.
  - right. apply list_find_Some in Hfind as (Hi & [Hu Hb] & _).
    exists i, x. split; [done|]. split; [done|].
    subst fresh. by rewrite Hu, Hb.
  - left. split; [|done]. by apply (proj1 (list_find_None _ _)).
Qed.

Lemma filter_insert_irrelevant {A} (P : A → Prop) `{!∀ x, Decision (P x)}
    (l : list A) (i : nat) (x y : A) :
  l !! i = Some x → ¬ P x → ¬ P y → filter P (<[i := y]> l) = filter P l.
Proof.
  intros Hi Hx Hy. pose proof (lookup_lt_Some _ _ _ Hi) as Hlt.
  rewrite insert_take_drop by done.
  rewrite <- (take_drop_middle l i x Hi) at 3.
  rewrite !filter_app, !filter_cons. by rewrite !decide_False.
Qed.

Lemma filter_insert_length {A} (P : A → Prop) `{!∀ x, Decision (P x)}
    (l : list A) (i : nat) (x y : A) :
  l !! i = Some x → P x → P y →
  length (filter P (<[i := y]> l)) = length (filter P l).
Proof.
  intros Hi Hx Hy. pose proof (lookup_lt_Some _ _ _ Hi) as Hlt.
  rewrite insert_take_drop by done.
  rewrite <- (take_drop_middle l i x Hi) at 3.
  rewrite !filter_app, !filter_cons. rewrite !decide_True by done.
  by rewrite !length_app.
Qed.

(** What a POST does to the database, whatever its outcome. *)
Lemma post_ratings_shape API_KEY headers (r : RatingIn) (db : Db) :
  let fresh := {| rating_user_id := in_user_id r;
                  rating_book_id := in_book_id r; rating := in_rating r |} in
  (∃ s, post_ratings API_KEY headers r db = (HttpError s, db)) ∨
  (Forall (λ x, ¬ same_key (in_user_id r) (in_book_id r) x) (ratings db) ∧
   post_ratings API_KEY headers r db =
     (Ok {| upserted := true; matched := 0 |},
      set_ratings db (ratings db ++ [fresh]))) ∨
  (∃ i x, ratings db !! i = Some x ∧
     same_key (in_user_id r) (in_book_id r) x ∧
     post_ratings API_KEY headers r db =
       (Ok {| upserted := false; matched := 1 |},
        set_ratings db (<[i := fresh]> (ratings db)))).
Proof.
  intros fresh. unfold post_ratings, verify_api_key.
  case_decide; [|left; by eexists].
  destruct (valid_rating_in r); [|left; by eexists]. right.
  unfold upsert_rating.
  destruct (update_one_rating_shape (in_user_id r) (in_book_id r)
              (in_rating r) (ratings db))
    as [[Hnone ->]|(i & x & Hi & Hx & ->)]; [by left|right; by exists i, x].
Qed.



(** X6: whatever its outcome, a rating POST leaves the books, tags and
    book_tags collections as they were, and the records of every other
    [(user_id, book_id)] key of the ratings collection as they were. *)
Theorem post_ratings_frame API_KEY headers (r : RatingIn) (db : Db) (u b : Z) :
  (u, b) ≠ (in_user_id r, in_book_id r) →
  let db1 := (post_ratings API_KEY headers r db).2 in
  books db1 = books db ∧ tags db1 = tags db ∧ book_tags db1 = book_tags db ∧
  filter (same_key u b) (ratings db1) = filter (same_key u b) (ratings db).
Proof.
  intros Hne.
  assert (∀ x, same_key (in_user_id r) (in_book_id r) x → ¬ same_key u b x)
    as Hother by (intros x [Hu Hb] [Hu' Hb']; congruence).
  destruct (post_ratings_shape API_KEY headers r db)
    as [[s ->]|[[Hnone ->]|(i & x & Hi & Hx & ->)]]; simpl; [done| |].
  - split; [done|]. split; [done|]. split; [done|].
    rewrite filter_app, filter_cons, decide_False by (by apply Hother).
    by rewrite app_nil_r.
  - split; [done|]. split; [done|]. split; [done|].
    apply (filter_insert_irrelevant _ _ i x); [done|by apply Hother..].
Qed.

Lemma post_ratings_frame_witness :
  filter (same_key 1 8)
    (ratings (post_ratings "secret123" [("x-api-key", "secret123")]%string
                {| in_user_id := 1; in_book_id := 7; in_rating := 1 |}
                sample_db).2)
  = filter (same_key 1 8) (ratings sample_db).
Proof.
  apply (post_ratings_frame "secret123" [("x-api-key", "secret123")]%string
           {| in_user_id := 1; in_book_id := 7; in_rating := 1 |}
           sample_db 1 8).
  discriminate.
Defined.

(** X7: a rating POST keeps the unique index on [(user_id, book_id)]: from
    a collection without two records of one key it yields a collection
    without two records of one key; the keys already there stay, in place,
    and at most the posted key is added at the end. *)
Theorem post_ratings_unique_index API_KEY headers (r : RatingIn) (db : Db) :
  NoDup (rating_key <$> ratings db) →
  let db1 := (post_ratings API_KEY headers r db).2 in
  NoDup (rating_key <$> ratings db1) ∧
  (rating_key <$> ratings db1 = rating_key <$> ratings db ∨
   rating_key <$> ratings db1
     = (rating_key <$> ratings db) ++ [(in_user_id r, in_book_id r)]).
Proof.
  intros Hnd.
  destruct (post_ratings_shape API_KEY headers r db)
    as [[s ->]|[[Hnone ->]|(i & x & Hi & [Hu Hb] & ->)]]; simpl.
  - split; [done|by left].
  - rewrite fmap_app. split; [|by right].
    apply NoDup_app. split; [done|]. split; [|apply NoDup_singleton].
    intros k Hk Hin. apply list_elem_of_singleton in Hin as ->.
    apply list_elem_of_fmap in Hk as (x & Hkey & Hx).
    apply (proj1 (Forall_forall _ _) Hnone x Hx).
    unfold rating_key in Hkey. injection Hkey as Hu Hb. by split.
  - rewrite list_fmap_insert, list_insert_id; [split; [done|by left]|].
    rewrite list_lookup_fmap, Hi. unfold rating_key. simpl. by rewrite Hu, Hb.
Qed.

Lemma post_ratings_unique_index_witness :
  NoDup (rating_key <$> ratings
    (post_ratings "secret123" [("x-api-key", "secret123")]%string
       {| in_user_id := 1; in_book_id := 9; in_rating := 1 |} sample_db).2).
Proof.
  apply (post_ratings_unique_index "secret123"
           [("x-api-key", "secret123")]%string
           {| in_user_id := 1; in_book_id := 9; in_rating := 1 |} sample_db).
  apply (bool_decide_unpack _). by vm_compute.
Defined.

(** X8: after a rating POST the metrics show the same number of books, a
    number of ratings grown by one exactly when the answer says
    [upserted = true] and unchanged otherwise, and a number of users grown
    by at most one. *)
Theorem metrics_after_post API_KEY headers (r : RatingIn) (db : Db) :
  let res := post_ratings API_KEY headers r db in
  books_count (metrics res.2) = books_count (metrics db) ∧
  metrics_ratings_count (metrics res.2) =
    (metrics_ratings_count (metrics db) +
     match res.1 with
     | Ok out => if upserted out then 1 else 0
     | HttpError _ => 0
     end)%nat ∧
  (users_count (metrics db) ≤ users_count (metrics res.2)
     ≤ users_count (metrics db) + 1)%nat.
Proof.
  unfold metrics. cbn [books_count metrics_ratings_count users_count].
  rewrite !count_documents_all, !length_distinct.
  destruct (post_ratings_shape API_KEY headers r db)
    as [[s ->]|[[Hnone ->]|(i & x & Hi & [Hu Hb] & ->)]]; simpl.
  - split; [done|]. split; lia.
  - split; [done|]. rewrite length_app. split; [simpl; lia|].
    rewrite fmap_app, list_to_set_app_L. simpl.
    set (S0 := list_to_set (rating_user_id <$> ratings db) : gset Z).
    split.
    + apply subseteq_size, union_subseteq_l.
    + rewrite size_union_alt.
      assert (size (({[in_user_id r]} ∪ ∅) ∖ S0) ≤ 1)%nat; [|lia].
      etransitivity; [apply subseteq_size, subseteq_difference_l; reflexivity|].
      by rewrite union_empty_r_L, size_singleton.
  - split; [done|]. rewrite length_insert. split; [lia|].
    rewrite list_fmap_insert, list_insert_id; [lia|].
    rewrite list_lookup_fmap, Hi. simpl. by rewrite Hu.
Qed.

(** ** Rating summary, further *)

Lemma get_rating_summary_ext db db' bid :
  match_book_id bid (ratings db') = match_book_id bid (ratings db) →
  get_rating_summary db' bid = get_rating_summary db bid.
Proof.
  intros Heq. pose proof (get_rating_summary_rows db bid) as H.
  pose proof (get_rating_summary_rows db' bid) as H'.
  simpl in H, H'. rewrite Heq in H'. by rewrite H, H'.
Qed.

Lemma rs_count_rows db bid :
  rs_count (get_rating_summary db bid)
  = length (match_book_id bid (ratings db)).
Proof.
  pose proof (get_rating_summary_rows db bid) as H. simpl in H. rewrite H.
  case_decide as Hrows; [by rewrite Hrows|done].
Qed.

(** X9: a rating POST for one book never changes the summary of another
    book; the count of the posted book's summary grows by one exactly when
    the answer says [upserted = true] and is unchanged otherwise. *)
Theorem summary_after_post API_KEY headers (r : RatingIn) (db : Db) :
  let res := post_ratings API_KEY headers r db in
  (∀ bid, bid ≠ in_book_id r →
     get_rating_summary res.2 bid = get_rating_summary db bid) ∧
  rs_count (get_rating_summary res.2 (in_book_id r)) =
    (rs_count (get_rating_summary db (in_book_id r)) +
     match res.1 with
     | Ok out => if upserted out then 1 else 0
     | HttpError _ => 0
     end)%nat.
Proof.
  cbv zeta. rewrite !rs_count_rows. unfold match_book_id.
  destruct (post_ratings_shape API_KEY headers r db)
    as [[s ->]|[[Hnone ->]|(i & x & Hi & [Hu Hb] & ->)]]; cbn [fst snd].
  - split; [done|lia].
  - split.
    + intros bid Hbid. apply get_rating_summary_ext. unfold match_book_id.
      cbn [set_ratings ratings].
      rewrite filter_app, filter_cons, decide_False by (simpl; congruence).
      by rewrite app_nil_r.
    + cbn [set_ratings ratings].
      rewrite filter_app, filter_cons, decide_True by done.
      rewrite length_app. simpl. lia.
  - split.
    + intros bid Hbid. apply get_rating_summary_ext. unfold match_book_id.
      cbn [set_ratings ratings].
      apply (filter_insert_irrelevant _ _ i x); [done|simpl; congruence..].
    + cbn [set_ratings ratings].
      rewrite (filter_insert_length _ _ i x) by done. simpl. lia.
Qed.

Lemma summary_after_post_witness :
  get_rating_summary
    (post_ratings "secret123" [("x-api-key", "secret123")]%string
       {| in_user_id := 1; in_book_id := 8; in_rating := 4 |} sample_db).2 7
  = get_rating_summary sample_db 7.
Proof.
  apply (summary_after_post "secret123" [("x-api-key", "secret123")]%string
           {| in_user_id := 1; in_book_id := 8; in_rating := 4 |} sample_db).
  discriminate.
Defined.

Lemma round_half_even_between (n : Z) (d : positive) (a b : Z) :
  a * Zpos d ≤ n ≤ b * Zpos d → a ≤ round_half_even (n # d) ≤ b.
Proof.
  intros Hn. unfold round_half_even. simpl.
  pose proof (Z.div_mod n (Zpos d) ltac:(lia)) as Hdm.
  pose proof (Z.mod_pos_bound n (Zpos d) ltac:(lia)) as Hr.
  set (f := n / Zpos d) in *. set (m := n mod Zpos d) in *.
  assert (a ≤ f) by nia. assert (f ≤ b) by nia.
  destruct (Z.compare_spec (2 * m) (Zpos d)) as [He|Hl|Hg];
    [destruct (Z.even f)|..]; nia.
Qed.

Lemma sumZ_between (l : list Z) :
  Forall (λ x, 1 ≤ x ≤ 5) l →
  Z.of_nat (length l) ≤ sumZ l ≤ 5 * Z.of_nat (length l).
Proof.
  induction 1 as [|x l Hx _ IH]; [simpl; lia|].
  change (sumZ (x :: l)) with (x + sumZ l).
  cbn [length]. rewrite Nat2Z.inj_succ. lia.
Qed.

(** X10: for a book with at least one rating, all ratings of the book
    being in 1..5, the average returned by the summary lies between 1 and
    5. *)
Theorem summary_average_in_range (db : Db) (bid : Z) :
  let rows := filter (λ x, rating_book_id x = bid) (ratings db) in
  rows ≠ [] → Forall (λ x, 1 ≤ rating x ≤ 5) rows →
  (1 <= rs_average (get_rating_summary db bid) <= 5)%Q.
Proof.
  intros rows Hne Hall.
  pose proof (get_rating_summary_rows db bid) as Heq. simpl in Heq.
  unfold match_book_id in Heq. fold rows in Heq.
  rewrite Heq, decide_False by done. cbn [rs_average]. clear Heq.
  assert (Forall (λ x, 1 ≤ x ≤ 5) (rating <$> rows)) as Hvals
    by (by apply Forall_fmap).
  pose proof (sumZ_between _ Hvals) as Hsum.
  assert (length (rating <$> rows) ≠ 0%nat) as Hlen
    by (rewrite length_fmap; by destruct rows).
  set (vals := rating <$> rows) in *.
  unfold py_round, avg. change (Pos.of_nat (10 ^ 2)) with 100%positive.
  unfold Qmult. cbn [Qnum Qden].
  pose proof (round_half_even_between (sumZ vals * 100)
                (Pos.of_nat (length vals) * 1) 100 500) as Hround.
  assert (Zpos (Pos.of_nat (length vals) * 1) = Z.of_nat (length vals)) as Hpos
    by lia.
  rewrite Hpos in Hround. specialize (Hround ltac:(lia)).
  unfold Qle. cbn [Qnum Qden]. lia.
Qed.

Lemma summary_average_in_range_witness :
  (1 <= rs_average (get_rating_summary sample_db 7) <= 5)%Q.
Proof.
  apply (summary_average_in_range sample_db 7).
  - vm_compute. discriminate.
  - vm_compute. repeat (constructor; [split; discriminate|]). constructor.
Defined.

Lemma sum_counts_general (dist : list Z) :
  (list_count 1 dist + list_count 2 dist + list_count 3 dist +
   list_count 4 dist + list_count 5 dist)%nat
  = length (filter (λ x, 1 ≤ x ≤ 5) dist).
Proof.
  unfold list_count. induction dist as [|x l IH]; [done|].
  rewrite !filter_cons. destruct (decide (1 ≤ x ≤ 5)) as [Hx|Hx].
  - simpl length. rewrite <- IH.
    assert (x = 1 ∨ x = 2 ∨ x = 3 ∨ x = 4 ∨ x = 5) as Hcases by lia.
    destruct Hcases as [->|[->|[->|[->| ->]]]];
      repeat case_decide; try lia; simpl length; lia.
  - rewrite <- IH. repeat case_decide; try lia.
Qed.

(** X11: whatever the stored values, the values of the histogram add up
    to the number of the book's ratings that lie in 1..5, so never to more
    than the returned count: a rating outside 1..5 is counted but falls in
    no bucket. *)
Theorem histogram_total_general (db : Db) (bid : Z) :
  let rows := filter (λ x, rating_book_id x = bid) (ratings db) in
  let r := get_rating_summary db bid in
  sum_list (snd <$> map_to_list (rs_histogram r))
    = length (filter (λ x, 1 ≤ rating x ≤ 5) rows) ∧
  (sum_list (snd <$> map_to_list (rs_histogram r)) ≤ rs_count r)%nat.
Proof.
  intros rows r. subst r.
  assert (sum_list (snd <$> map_to_list
            (rs_histogram (get_rating_summary db bid)))
          = length (filter (λ x, 1 ≤ rating x ≤ 5) rows)) as Hsum.
  { pose proof (get_rating_summary_rows db bid) as Heq. simpl in Heq.
    unfold match_book_id in Heq. fold rows in Heq. rewrite Heq. clear Heq.
    case_decide as Hrows.
    - rewrite Hrows. cbn [rs_histogram]. by rewrite map_to_list_empty.
    - cbn [rs_histogram]. unfold histogram. rewrite map_to_list_to_map.
      + change (seqZ 1 5) with [1; 2; 3; 4; 5]. simpl.
        pose proof (sum_counts_general (rating <$> rows)) as Hgen.
        replace (length (filter (λ x, 1 ≤ rating x ≤ 5) rows))
          with (length (filter (λ x, 1 ≤ x ≤ 5) (rating <$> rows))); [lia|].
        clear. induction rows as [|x l IH]; [done|].
        rewrite fmap_cons, !filter_cons.
        destruct (decide (1 ≤ rating x ≤ 5)); simpl; by rewrite IH.
      + change (seqZ 1 5) with [1; 2; 3; 4; 5]. simpl.
        apply (bool_decide_unpack _). by vm_compute. }
  split; [done|]. rewrite Hsum, rs_count_rows. unfold match_book_id.
  fold rows. apply length_filter.
Qed.

Lemma sumZ_perm (l l' : list Z) : l ≡ₚ l' → sumZ l = sumZ l'.
Proof.
  unfold sumZ. induction 1 as [|x l l' _ IH|x y l|l l' l'' _ IH1 _ IH2];
    simpl; lia.
Qed.

(** X12: the summary of a book does not depend on the order in which the
    ratings are stored: two databases whose ratings collections hold the
    same records, in any order, give the same summary. *)
Theorem summary_order_independent (db db' : Db) (bid : Z) :
  ratings db ≡ₚ ratings db' →
  get_rating_summary db bid = get_rating_summary db' bid.
Proof.
  intros Hperm.
  pose proof (get_rating_summary_rows db bid) as H.
  pose proof (get_rating_summary_rows db' bid) as H'.
  simpl in H, H'. rewrite H, H'. clear H H'.
  assert (match_book_id bid (ratings db) ≡ₚ match_book_id bid (ratings db'))
    as Hrows by (unfold match_book_id; by rewrite Hperm).
  set (rows := match_book_id bid (ratings db)) in *.
  set (rows' := match_book_id bid (ratings db')) in *.
  assert (rating <$> rows ≡ₚ rating <$> rows') as Hvals by (by rewrite Hrows).
  case_decide as Hnil; case_decide as Hnil'.
  - done.
  - rewrite Hnil in Hrows. by apply Permutation_nil_l in Hrows.
  - rewrite Hnil' in Hrows. by apply Permutation_nil_r in Hrows.
  - f_equal.
    + unfold avg. by rewrite (sumZ_perm _ _ Hvals), Hvals.
    + by rewrite Hrows.
    + unfold histogram. f_equal. apply list_fmap_ext. intros _ i _.
      f_equal. unfold list_count. by rewrite Hvals.
Qed.

Lemma summary_order_independent_witness :
  get_rating_summary sample_db 7
  = get_rating_summary (set_ratings sample_db (reverse (ratings sample_db))) 7.
Proof.
  apply (summary_order_independent sample_db
           (set_ratings sample_db (reverse (ratings sample_db))) 7).
  cbn [set_ratings ratings]. symmetry. apply reverse_Permutation.
Defined.

(** ** Book listing, further *)

Lemma year_matches_spec (yf yt : option Z) (y : option Q) :
  truthy_int yf || truthy_int yt = true →
  year_matches {| yr_gte := if truthy_int yf then yf else None;
                  yr_lte := if truthy_int yt then yt else None |} y = true ↔
  ∃ v, y = Some v ∧ year_in_bounds yf yt v.
Proof.
  intros Htruthy. unfold year_matches, year_in_bounds. cbn [yr_gte yr_lte].
  destruct y as [v|]; [|split; [done|by intros (v & ? & _)]].
  destruct yf as [a|], yt as [b|]; cbn [truthy_int] in *;
    try destruct (a =? 0) eqn:Ha; try destruct (b =? 0) eqn:Hb;
    cbn [negb orb from_option] in *; try discriminate;
    rewrite ?andb_true_iff, ?andb_true_r, ?Qle_bool_iff;
    (split; [intros H; exists v; split; [done|]; split; intros ? [= <-] ?;
               (tauto || lia)
            |intros (v0 & [= <-] & H1 & H2);
               repeat split; (done || (by apply H1; [done|lia])
                                   || (by apply H2; [done|lia]))]).
Qed.

(** X13: with only year bounds given, a bound that is absent or 0 counts
    as no bound; without any bound every book matches; with at least one
    bound a book matches exactly when it has a publication year and the
    year lies within the bounds, both inclusive. *)
Theorem year_filter_semantics (yf yt : option Z) (b : Book) :
  ∃ p, compile_filter (build_query_filter None None yf yt) = Some p ∧
    ((∀ a, yf = Some a → a = 0) → (∀ c, yt = Some c → c = 0) → p b = true) ∧
    ((∃ a, yf = Some a ∧ a ≠ 0) ∨ (∃ c, yt = Some c ∧ c ≠ 0) →
       (p b = true ↔
          ∃ y, original_publication_year b = Some y ∧ year_in_bounds yf yt y)).
Proof.
  unfold build_query_filter, compile_filter. cbn [truthy_str truthy_float].
  cbn [qf_or_regex qf_average_rating_gte qf_original_publication_year].
  eexists. split; [reflexivity|]. cbn beta. cbn [from_option andb]. split.
  - intros Hf Ht.
    assert (truthy_int yf = false) as ->.
    { destruct yf as [a|]; [|done]. simpl. rewrite (Hf a eq_refl). done. }
    assert (truthy_int yt = false) as ->.
    { destruct yt as [c|]; [|done]. simpl. rewrite (Ht c eq_refl). done. }
    done.
  - intros Hsome.
    assert (truthy_int yf || truthy_int yt = true) as Htruthy.
    { destruct Hsome as [(a & -> & Ha)|(c & -> & Hc)]; simpl.
      - apply orb_true_iff. left. apply negb_true_iff. lia.
      - apply orb_true_iff. right. apply negb_true_iff. lia. }
    rewrite Htruthy. cbn [from_option].
    by apply year_matches_spec.
Qed.

Lemma year_filter_semantics_witness :
  ∃ p, compile_filter (build_query_filter None None (Some 1900) None) = Some p ∧
       p (mk_book 7 70 "The Hobbit" "J.R.R. Tolkien" (Some (1937 # 1)) 4) = true ∧
       p (mk_book 9 90 "x" "y" None 4) = false.
Proof.
  destruct (year_filter_semantics (Some 1900) None
              (mk_book 7 70 "The Hobbit" "J.R.R. Tolkien" (Some (1937 # 1)) 4))
    as (p & Hp & _ & Hiff).
  exists p. split; [done|]. split.
  - apply Hiff; [left; by exists 1900|].
    exists (1937 # 1). split; [done|]. split.
    + intros a [= <-] _. by vm_compute.
    + by intros c [=].
  - injection Hp as <-. reflexivity.
Defined.







(** ** Tag listing, further *)





(** ** Tags of a book, further *)

Lemma join_tags_at_most_one (T : list Tag) (bt : BookTag) :
  NoDup (tag_id <$> T) →
  (length (t ← T;
           if bool_decide (tag_id t = bt_tag_id bt) then
             [{| row_tag_id := bt_tag_id bt; row_count := bt_count bt;
                 row_tag_name := tag_name t |}]
           else []) ≤ 1)%nat.
Proof.
  induction T as [|t T IH]; intros Hnd; [simpl; lia|].
  rewrite fmap_cons in Hnd. apply NoDup_cons in Hnd as [Ht Hnd].
  rewrite bind_cons, length_app. case_bool_decide as Heq; [|simpl; by apply IH].
  assert ((t0 ← T;
           if bool_decide (tag_id t0 = bt_tag_id bt) then
             [{| row_tag_id := bt_tag_id bt; row_count := bt_count bt;
                 row_tag_name := tag_name t0 |}]
           else []) = []) as ->; [|simpl; lia].
  clear IH Hnd. induction T as [|t0 T IH]; [done|].
  rewrite fmap_cons in Ht. apply not_elem_of_cons in Ht as [Hne Ht].
  rewrite bind_cons, IH by done. rewrite bool_decide_eq_false_2 by congruence.
  done.
Qed.

Lemma inner_join_rows_length (db : Db) (gr_id : Z) :
  NoDup (tag_id <$> tags db) →
  (length (inner_join_rows db gr_id)
   ≤ length (filter (λ bt, bt_goodreads_book_id bt = gr_id) (book_tags db)))%nat.
Proof.
  intros Hnd. unfold inner_join_rows.
  induction (book_tags db) as [|bt bts IH]; [done|].
  rewrite bind_cons, length_app, filter_cons.
  case_bool_decide as Hgr.
  - rewrite decide_True by done. simpl length.
    pose proof (join_tags_at_most_one (tags db) bt Hnd). lia.
  - rewrite decide_False by done. simpl. lia.
Qed.

(** X17: when tag ids are unique in the tags collection, no BookTag row
    yields more than one output row: the tags lookup returns at most as
    many rows as there are BookTag rows with the [goodreads_book_id] of a
    book carrying the requested [book_id]. *)
Theorem get_book_tags_bounded (db : Db) (bid : Z) (r : BookTags) :
  NoDup (tag_id <$> tags db) →
  get_book_tags db bid = Ok r →
  bts_book_id r = bid ∧
  ∃ book, book ∈ books db ∧ book_id book = bid ∧
    (length (bts_tags r)
     ≤ length (filter (λ bt, bt_goodreads_book_id bt = goodreads_book_id book)
                 (book_tags db)))%nat.
Proof.
  intros Hnd. unfold get_book_tags.
  destruct (find_one_book bid (books db)) as [book|] eqn:Hbook; [|done].
  intros [= <-]. cbn [bts_book_id bts_tags]. split; [done|].
  apply find_one_book_Some in Hbook as [Hin Hid].
  exists book. split; [done|]. split; [done|].
  rewrite pipeline_inner_join. unfold stage_sort. rewrite cursor_sort_length.
  by apply inner_join_rows_length.
Qed.

Lemma get_book_tags_bounded_witness :
  ∃ r, get_book_tags sample_db 7 = Ok r ∧ (length (bts_tags r) ≤ 4)%nat.
Proof.
  eexists. split; [reflexivity|].
  destruct (get_book_tags_bounded sample_db 7 _
              ltac:(apply (bool_decide_unpack _); by vm_compute) eq_refl)
    as (_ & book & _ & _ & Hlen).
  etransitivity; [exact Hlen|]. etransitivity; [apply length_filter|].
  vm_compute. lia.
Defined.

(** ** CSV loader, further *)

Section ingest_more.
Context (key_fields : list string).

Let key := key_of key_fields.
Let step (coll : list doc) (data : doc) : list doc :=
  apply_update_one coll (default ∅ (make_filter_doc key_fields data), data).

Lemma make_filter_doc_None (data : doc) (k : string) :
  k ∈ key_fields → data !! k = None → make_filter_doc key_fields data = None.
Proof.
  unfold make_filter_doc. clear key step.
  induction key_fields as [|k0 ks IH]; intros Hin Hk.
  - by apply elem_of_nil in Hin.
  - cbn [mapM]. apply elem_of_cons in Hin as [->|Hin].
    + by rewrite Hk.
    + destruct (data !! k0); [|done]. simpl.
      specialize (IH Hin Hk). revert IH. by destruct (mapM _ ks).
Qed.

Lemma has_keys_dec (data : doc) :
  has_keys key_fields data ∨ ∃ k, k ∈ key_fields ∧ data !! k = None.
Proof.
  unfold has_keys. clear key step.
  induction key_fields as [|k0 ks IH].
  - left. intros k Hin. by apply elem_of_nil in Hin.
  - destruct (data !! k0) as [v|] eqn:Hk0.
    + destruct IH as [IH|(k & Hin & Hk)].
      * left. intros k Hin. apply elem_of_cons in Hin as [->|Hin]; eauto.
      * right. exists k. split; [by right|done].
    + right. exists k0. split; [by left|done].
Qed.

Lemma all_have_keys_dec (df : list doc) :
  Forall (has_keys key_fields) df ∨
  ∃ row k, row ∈ df ∧ k ∈ key_fields ∧ row !! k = None.
Proof.
  induction df as [|row df IH]; [by left|].
  destruct (has_keys_dec row) as [Hrow|(k & Hin & Hk)].
  - destruct IH as [IH|(row' & k & Hrow' & Hin & Hk)].
    + left. by constructor.
    + right. exists row', k. split; [by right|done].
  - right. exists row, k. split; [by left|done].
Qed.

Lemma ingest_collection_KeyError (coll df : list doc) :
  (∃ row k, row ∈ df ∧ k ∈ key_fields ∧ row !! k = None) →
  ingest_collection coll df key_fields = coll.
Proof.
  intros (row & k & Hrow & Hin & Hk). unfold ingest_collection.
  assert (mapM (λ data, (λ f, (f, data)) <$> make_filter_doc key_fields data)
            (fillna df) = None) as ->; [|done].
  unfold fillna. induction df as [|row' df IH]; [by apply elem_of_nil in Hrow|].
  rewrite fmap_cons. cbn [mapM]. apply elem_of_cons in Hrow as [<-|Hrow].
  - rewrite (make_filter_doc_None _ k); [done..|].
    by rewrite lookup_fmap, Hk.
  - rewrite (IH Hrow). by destruct (make_filter_doc _ _).
Qed.

(** How one row changes the collection. *)
Lemma step_shape (coll : list doc) (data : doc) :
  has_keys key_fields data →
  (Forall (λ d, key d ≠ key data) coll ∧ step coll data = coll ++ [data]) ∨
  (∃ i d, coll !! i = Some d ∧ key d = key data ∧
          step coll data = <[i := data ∪ d]> coll).
Proof.
  intros Hk. pose proof (step_cases key_fields coll data Hk) as Hstep.
  destruct (list_find _ coll) as [[i d]|] eqn:Hfind.
  - right. apply list_find_Some in Hfind as (Hi & Hd & _). by exists i, d.
  - left. split; [|done]. by apply (proj1 (list_find_None _ _)).
Qed.


Lemma step_keeps (coll : list doc) (data : doc) (C : string → Prop) :
  has_keys key_fields data → (∀ c, C c → data !! c = None) →
  (length coll ≤ length (step coll data) ≤ length coll + 1)%nat ∧
  ∀ i d, coll !! i = Some d →
    ∃ d', step coll data !! i = Some d' ∧ key d' = key d ∧
          ∀ c, C c → d' !! c = d !! c.
Proof.
  intros Hk HC.
  destruct (step_shape coll data Hk) as [[_ ->]|(j & dj & Hj & Hkey & ->)].
  - split; [rewrite length_app; simpl; lia|].
    intros i d Hi. exists d. split; [|done].
    by rewrite lookup_app_l by (by eapply lookup_lt_Some).
  - split; [rewrite length_insert; lia|].
    intros i d Hi. destruct (decide (i = j)) as [->|Hne].
    + assert (d = dj) as -> by congruence. exists (data ∪ dj).
      split; [apply list_lookup_insert_eq; by eapply lookup_lt_Some|].
      split; [subst key; by rewrite key_union, <- Hkey|].
      intros c Hc. by rewrite lookup_union_r by by apply HC.
    + exists d. split; [|done]. by rewrite list_lookup_insert_ne.
Qed.

Lemma fold_step_keeps (rows coll : list doc) (C : string → Prop) :
  Forall (has_keys key_fields) rows →
  (∀ data c, data ∈ rows → C c → data !! c = None) →
  (length coll ≤ length (foldl step coll rows) ≤ length coll + length rows)%nat ∧
  ∀ i d, coll !! i = Some d →
    ∃ d', foldl step coll rows !! i = Some d' ∧ key d' = key d ∧
          ∀ c, C c → d' !! c = d !! c.
Proof.
  intros Hk. revert coll. induction Hk as [|data rows Hdata _ IH];
    intros coll HC.
  - split; [simpl; lia|]. intros i d Hi. by exists d.
  - cbn [foldl].
    destruct (step_keeps coll data C Hdata) as [Hlen Hpos].
    { intros c Hc. apply HC; [by left|done]. }
    destruct (IH (step coll data)) as [Hlen' Hpos'].
    { intros data' c Hin Hc. apply HC; [by right|done]. }
    split; [simpl length; lia|].
    intros i d Hi. destruct (Hpos i d Hi) as (d1 & Hi1 & Hk1 & Hc1).
    destruct (Hpos' i d1 Hi1) as (d2 & Hi2 & Hk2 & Hc2).
    exists d2. split; [done|]. split; [congruence|].
    intros c Hc. by rewrite Hc2, Hc1.
Qed.

Lemma fold_step_nan_free (rows coll : list doc) :
  Forall (has_keys key_fields) rows → Forall nan_free rows →
  Forall nan_free coll → Forall nan_free (foldl step coll rows).
Proof.
  intros Hk. revert coll. induction Hk as [|data rows Hdata _ IH];
    intros coll Hrows Hcoll; [done|].
  apply Forall_cons in Hrows as [Hd Hrows]. cbn [foldl].
  apply IH; [done|].
  destruct (step_shape coll data Hdata) as [[_ ->]|(j & dj & Hj & _ & ->)].
  - apply Forall_app. split; [done|]. by constructor.
  - apply Forall_insert; [done|]. intros c Hc.
    apply lookup_union_Some_raw in Hc as [Hc|[_ Hc]]; [by apply (Hd c)|].
    apply (proj1 (Forall_forall _ _) Hcoll dj (list_elem_of_lookup_2 _ _ _ Hj) c Hc).
Qed.
End ingest_more.

(** X18: a source without rows, or with a row lacking one of the key
    columns, leaves the collection exactly as it was: the [KeyError] is
    raised while the operations are built, before anything is written. *)
Theorem ingest_nothing_loaded (key_fields : list string) (coll df : list doc) :
  df = [] ∨ (∃ row k, row ∈ df ∧ k ∈ key_fields ∧ row !! k = None) →
  ingest_collection coll df key_fields = coll.
Proof.
  intros [->|Hmissing]; [done|]. by apply ingest_collection_KeyError.
Qed.

Lemma ingest_nothing_loaded_witness :
  ingest_collection sample_tags_coll sample_tags_frame ["book_id"%string]
  = sample_tags_coll.
Proof.
  apply ingest_nothing_loaded. right.
  exists {[ "tag_id"%string := SNum (Q2Qc 1); "tag_name"%string := SNaN ]},
    "book_id"%string.
  split; [by left|]. split; [by left|reflexivity].
Defined.

(** X19: loading never deletes or moves a record: every record of the
    collection stays at its position with its key; fields that no row of
    the source mentions keep their values; and the collection grows by at
    most the number of rows. *)
Theorem ingest_keeps_documents (key_fields : list string) (coll df : list doc) :
  let coll' := ingest_collection coll df key_fields in
  (length coll ≤ length coll' ≤ length coll + length df)%nat ∧
  ∀ i d, coll !! i = Some d →
    ∃ d', coll' !! i = Some d' ∧
      key_of key_fields d' = key_of key_fields d ∧
      ∀ c, (∀ row, row ∈ df → row !! c = None) → d' !! c = d !! c.
Proof.
  intros coll'. subst coll'.
  destruct (all_have_keys_dec key_fields df) as [Hk|Hmissing].
  - rewrite ingest_collection_fold by done.
    assert (Forall (has_keys key_fields) (fillna df)) as Hk'.
    { unfold fillna. apply Forall_fmap. eapply Forall_impl; [exact Hk|].
      intros row. apply has_keys_fill. }
    destruct (fold_step_keeps key_fields (fillna df) coll
                (λ c, ∀ row, row ∈ df → row !! c = None) Hk') as [Hlen Hpos].
    { intros data c Hin Hc. unfold fillna in Hin.
      apply list_elem_of_fmap in Hin as (row & -> & Hrow).
      by rewrite lookup_fmap, (Hc row Hrow). }
    unfold fillna in Hlen. rewrite length_fmap in Hlen. by split.
  - rewrite ingest_collection_KeyError by done. split; [lia|].
    intros i d Hi. by exists d.
Qed.

Lemma ingest_keeps_documents_witness :
  ∃ d', ingest_collection
          [{[ "tag_id"%string := SNum (Q2Qc 1); "note"%string := SStr "kept" ]}]
          sample_tags_frame ["tag_id"%string] !! 0%nat = Some d' ∧
        d' !! "note"%string = Some (SStr "kept").
Proof.
  destruct (proj2 (ingest_keeps_documents ["tag_id"%string]
              [{[ "tag_id"%string := SNum (Q2Qc 1);
                  "note"%string := SStr "kept" ]}] sample_tags_frame)
              0%nat _ eq_refl) as (d' & Hd' & _ & Hfields).
  exists d'. split; [done|]. rewrite (Hfields "note"%string); [done|].
  intros row Hrow. unfold sample_tags_frame in Hrow.
  apply elem_of_cons in Hrow as [->|Hrow]; [done|].
  apply list_elem_of_singleton in Hrow as ->. done.
Defined.

Lemma fillna_nan_free (df : list doc) : Forall nan_free (fillna df).
Proof.
  unfold fillna. apply Forall_fmap, Forall_forall. intros row _ c. simpl.
  rewrite lookup_fmap. destruct (row !! c) as [[x|s|]|]; done.
Qed.

(** X20: the loader writes no NaN: a collection whose records hold no NaN
    holds none after loading, whatever the source. *)
Theorem ingest_nan_free (key_fields : list string) (coll df : list doc) :
  Forall nan_free coll →
  Forall nan_free (ingest_collection coll df key_fields).
Proof.
  intros Hcoll.
  destruct (all_have_keys_dec key_fields df) as [Hk|Hmissing].
  - rewrite ingest_collection_fold by done.
    apply fold_step_nan_free; [|apply fillna_nan_free|done].
    unfold fillna. apply Forall_fmap. eapply Forall_impl; [exact Hk|].
    intros row. apply has_keys_fill.
  - by rewrite ingest_collection_KeyError.
Qed.

Lemma ingest_nan_free_witness :
  Forall nan_free
    (ingest_collection sample_tags_coll sample_tags_frame ["tag_id"%string]).
Proof.
  apply ingest_nan_free. unfold sample_tags_coll.
  apply Forall_cons_2; [|apply Forall_nil_2]. intros c Hc.
  apply lookup_insert_Some in Hc as [[_ Hc]|[_ Hc]]; [discriminate|].
  apply lookup_singleton_Some in Hc as [_ Hc]. discriminate.
Defined.


